(** * svelte-store: async stores ([src/async-stores/index.ts])

    A shallow embedding of the async-store module and the properties of
    its state classifier, its load error handling, its first-subscription
    notifier and its constructors.

    JavaScript values are modelled by [JsValue]; objects are finite maps
    from property names to values.  The bodies of [asyncWritable] and
    [asyncDerived] run in a state-and-exception monad [M] over a [World]
    holding the process-wide configuration and the variables captured by
    the closures of one [asyncWritable] call.  An [async] function is cut
    at each [await] into the synchronous segments the event loop runs: the
    segment up to the [await] and, for each awaited promise, the
    continuation that runs once it has settled. *)

From stdpp Require Import base strings gmap list pretty.
From Stdlib Require Import ZArith Lia.

Open Scope string_scope.
Open Scope list_scope.
#[local] Set Warnings "-register-all".

(** ** JavaScript values *)

Module Js.

(** Values as the module handles them.  Functions, stores and errors are
    all objects: [JObject props] gives the properties that member access
    and [in] see on the object. *)
Inductive JsValue : Type :=
| JUndefined
| JNull
| JBool (b : bool)
| JNaN
| JNum (z : Z)
| JStr (s : string)
| JObject (props : gmap string JsValue).

(** How a piece of code ends: normally with a value, or by throwing. *)
Inductive Completion (A : Type) : Type :=
| Normal (a : A)
| Throw (e : JsValue).
Arguments Normal {A} a.
Arguments Throw {A} e.

(** How an awaited promise settles. *)
Inductive Outcome : Type :=
| Fulfilled (v : JsValue)
| Rejected (e : JsValue).

(** [ToBoolean]: the falsy values are [undefined], [null], [false], [0],
    [NaN] and the empty string. *)
Definition truthy (v : JsValue) : bool :=
  match v with
  | JUndefined | JNull | JNaN => false
  | JBool b => b
  | JNum z => negb (z =? 0)%Z
  | JStr s => negb (bool_decide (s = ""))
  | JObject _ => true
  end.

(** The error thrown by the engine when a property of [undefined] or
    [null] is read. *)
Definition TypeError (message : string) : JsValue :=
  JObject (<["name" := JStr "TypeError"]> (<["message" := JStr message]> ∅)).

(** [v.key] and the reads of a destructuring pattern [{ key } = v]:
    reading from [undefined] or [null] throws, a property the value does
    not have reads as [undefined]. *)
Definition member (v : JsValue) (key : string) : Completion JsValue :=
  match v with
  | JUndefined => Throw (TypeError "Cannot read properties of undefined")
  | JNull => Throw (TypeError "Cannot read properties of null")
  | JObject props => Normal (default JUndefined (props !! key))
  | JBool _ | JNaN | JNum _ | JStr _ => Normal JUndefined
  end.

(** [key in v] for an object. *)
Definition has_key (v : JsValue) (key : string) : Prop :=
  match v with
  | JObject props => is_Some (props !! key)
  | _ => False
  end.

(** [v === 'literal'] *)
Definition strict_eq_str (v : JsValue) (literal : string) : bool :=
  match v with
  | JStr s => bool_decide (s = literal)
  | _ => false
  end.

(** [...(v && { key: v })] inside an object literal: a falsy [v] is
    spread itself and has no own enumerable property; a truthy [v] is
    replaced by the one-property object, whose property is copied. *)
Definition spread_if (key : string) (v : JsValue) (into : gmap string JsValue)
  : gmap string JsValue :=
  if truthy v then <[key := v]> into else into.

End Js.
Import Js.

(** ** §3 Data model: state tags and the flag record *)

(** Modelled from the spec: [types.ts] is not among the sources.  [State]
    is the type of the five state tags of spec §3; at run time a tag is
    the string of the same name. *)
Inductive State : Type := LOADING | RELOADING | LOADED | WRITING | ERROR.

Definition tag (st : State) : string :=
  match st with
  | LOADING => "LOADING"
  | RELOADING => "RELOADING"
  | LOADED => "LOADED"
  | WRITING => "WRITING"
  | ERROR => "ERROR"
  end.

Definition state_tags : list string := tag <$> [LOADING; RELOADING; LOADED; WRITING; ERROR].

(** The object literal returned by [getLoadState] (type [LoadState]). *)
Record LoadState : Type := mkLoadState {
  isLoading : bool;
  isReloading : bool;
  isLoaded : bool;
  isWriting : bool;
  isError : bool;
  isPending : bool;
  isSettled : bool
}.

(** The five flags that name a state. *)
Definition base_flags (r : LoadState) : list bool :=
  [isLoading r; isReloading r; isLoaded r; isWriting r; isError r].

Definition all_flags (r : LoadState) : list bool :=
  base_flags r ++ [isPending r; isSettled r].

(** ** §4.1 State classifier *)

(** [getLoadState] (index.ts, lines 28-38).  The parameter is typed
    [State], but the body only compares it with [===] against the five
    literals, so it is defined on every string. *)
Definition getLoadState (stateString : string) : LoadState :=
  {| isLoading := bool_decide (stateString = "LOADING");
     isReloading := bool_decide (stateString = "RELOADING");
     isLoaded := bool_decide (stateString = "LOADED");
     isWriting := bool_decide (stateString = "WRITING");
     isError := bool_decide (stateString = "ERROR");
     isPending := bool_decide (stateString = "LOADING")
                  || bool_decide (stateString = "RELOADING");
     isSettled := bool_decide (stateString = "LOADED")
                  || bool_decide (stateString = "ERROR") |}.

(** ** The world of one container

    The process-wide configuration of [config.ts], the variables that the
    closures of one [asyncWritable] call capture and assign, the calls
    made to the collaborators whose results are awaited, and the async
    functions suspended at an [await]. *)

(** A call whose result is awaited: of the user's mapping function, or of
    [loadAll].

    Modelled from the spec: [utils] is not among the sources.  [loadAll]
    is the dependency loader of spec §4.2, which suspends until the
    dependencies have loaded and then yields their values, or fails when
    one of them fails.  Its calls are recorded; the way its promise
    settles is supplied by whoever resumes the awaiting function. *)
Inductive Call : Type :=
| LoadAll (stores : JsValue)        (* loadAll(stores) *)
| Mapping (values : JsValue).       (* mappingLoadFunction(values) *)

(** An async function suspended at its [await]. *)
Inductive Task : Type :=
| AwaitDependencies   (* the inner arrow of onFirstSubscribtion, at [await loadAll(stores)] *)
| AwaitLoadAll        (* onFirstSubscribtion, at [await loadAll()] *)
| AwaitMapping.       (* tryLoadValue, at [await mappingLoadFunction(values)] *)

Record World : Type := mkWorld {
  anyStoreCreated : bool;          (* config: set by flagStoreCreated *)
  errorLog : list JsValue;         (* config: arguments of the logging hook, oldest first *)
  loadState : option LoadState;    (* content of the loadState store; None: no store *)
  ready : bool;                    (* let ready *)
  calls : list Call;               (* awaited calls, oldest first *)
  suspended : list Task            (* suspended async functions *)
}.

Definition initial_world : World := mkWorld false [] None false [] [].

Definition mapping_calls (w : World) : list JsValue :=
  omap (fun c => match c with Mapping values => Some values | LoadAll _ => None end) (calls w).

Definition loadAll_calls (w : World) : list JsValue :=
  omap (fun c => match c with LoadAll s => Some s | Mapping _ => None end) (calls w).

(** ** The monad of synchronous code: state and exceptions *)

Definition M (A : Type) : Type := World -> World * Completion A.

#[global] Instance M_ret : MRet M := fun A a w => (w, Normal a).

#[global] Instance M_bind : MBind M := fun A B f m w =>
  match m w with
  | (w', Normal a) => f a w'
  | (w', Throw e) => (w', Throw e)
  end.

#[global] Instance M_throw : MThrow JsValue M := fun A e w => (w, Throw e).

(** An expression that can throw but touches no state. *)
Definition lift {A} (c : Completion A) : M A := fun w => (w, c).

Definition world_after {A} (r : World * Completion A) : World := fst r.
Definition completion {A} (r : World * Completion A) : Completion A := snd r.

(** Modelled from the spec: [config.ts] is not among the sources.
    [flagStoreCreated] marks that at least one store has been created
    (spec §6). *)
Definition flagStoreCreated : M unit := fun w =>
  (mkWorld true (errorLog w) (loadState w) (ready w) (calls w) (suspended w), Normal tt).

(** Modelled from the spec: [config.ts] is not among the sources.
    [logError] hands the error to the process-wide logging hook
    (spec §6); the hook's arguments are recorded in [errorLog]. *)
Definition logError (e : JsValue) : M unit := fun w =>
  (mkWorld (anyStoreCreated w) (errorLog w ++ [e]) (loadState w) (ready w) (calls w)
     (suspended w), Normal tt).

(** The content of the [loadState] store is replaced ([None]: there is
    no store). *)
Definition write_loadState (s : option LoadState) : M unit := fun w =>
  (mkWorld (anyStoreCreated w) (errorLog w) s (ready w) (calls w) (suspended w), Normal tt).

(** [ready = b] *)
Definition assign_ready (b : bool) : M unit := fun w =>
  (mkWorld (anyStoreCreated w) (errorLog w) (loadState w) b (calls w) (suspended w), Normal tt).

(** A call to a collaborator, recorded. *)
Definition call (c : Call) : M unit := fun w =>
  (mkWorld (anyStoreCreated w) (errorLog w) (loadState w) (ready w) (calls w ++ [c])
     (suspended w), Normal tt).

(** [await]: the running async function is parked until the promise settles. *)
Definition await (t : Task) : M unit := fun w =>
  (mkWorld (anyStoreCreated w) (errorLog w) (loadState w) (ready w) (calls w)
     (suspended w ++ [t]), Normal tt).

(** The event loop takes the [i]-th suspended function out to resume it. *)
Definition unpark (i : nat) (w : World) : World :=
  mkWorld (anyStoreCreated w) (errorLog w) (loadState w) (ready w) (calls w)
    (delete i (suspended w)).

(** ** §4.3 asyncWritable (index.ts, lines 56-105) *)

(** [const setState = (state: State) => loadState?.set(getLoadState(state))]
    (line 72): the store, when there is one, takes the new flag record. *)
Definition setState (state : State) : M unit := fun w =>
  write_loadState ((fun _ => getLoadState (tag state)) <$> loadState w) w.

(** The body of [asyncWritable], run when a container is constructed.
    [options] defaults to the empty object when [undefined]; the closures
    [setState], [tryLoadValue], [loadThenSet] and [onFirstSubscribtion]
    are only defined; [currentLoadPromise] and [latestLoadAndSet] are
    declared and left unassigned; the body ends without a [return]
    statement, so the call evaluates to [undefined]. *)
Definition asyncWritable
    (stores mappingLoadFunction mappingWriteFunction options : JsValue) : M JsValue :=
  let options := match options with JUndefined => JObject ∅ | _ => options end in
  flagStoreCreated;;
  reloadable ← lift (member options "reloadable");
  trackState ← lift (member options "trackState");
  initial ← lift (member options "initial");
  write_loadState (if truthy trackState then Some (getLoadState (tag LOADING)) else None);;
  assign_ready false;;
  mret JUndefined.

Section Closures.
(** The parameter of [asyncWritable] that its closures read. *)
Variable stores : JsValue.

(** [tryLoadValue] (lines 83-93), up to its [await]: the mapping
    function is called and its result awaited. *)
Definition tryLoadValue (values : JsValue) : M unit :=
  call (Mapping values);;
  await AwaitMapping.

(** [tryLoadValue] once the awaited result has settled: a fulfilled
    value is returned; a rejection (or an exception of the call) enters
    the [catch] block. *)
Definition tryLoadValue_settled (o : Outcome) : M JsValue :=
  match o with
  | Fulfilled v => mret v
  | Rejected e =>
      name ← lift (member e "name");
      (if negb (strict_eq_str name "AbortError")
       then logError e;; setState ERROR
       else mret tt);;
      mthrow e
  end.

(** [const loadThenSet = async (set) => {}] (line 95). *)
Definition loadThenSet (set : JsValue) : M JsValue := mret JUndefined.

(** [onFirstSubscribtion] (lines 97-104), the synchronous part of one
    call: the inner async arrow runs up to [await loadAll(stores)],
    then the body runs up to [await loadAll()]. *)
Definition onFirstSubscribtion (set : JsValue) : M unit :=
  call (LoadAll stores);;
  await AwaitDependencies;;
  call (LoadAll JUndefined);;
  await AwaitLoadAll.

(** The inner arrow once [loadAll(stores)] has settled: [ready = true;
    tryLoadValue(values)], the promise of [tryLoadValue] is dropped. *)
Definition onFirstSubscribtion_inner_settled (o : Outcome) : M JsValue :=
  match o with
  | Fulfilled values =>
      assign_ready true;;
      tryLoadValue values;;
      mret JUndefined
  | Rejected e => mthrow e
  end.

(** The body once [loadAll()] has settled: nothing is left to run. *)
Definition onFirstSubscribtion_settled (o : Outcome) : M JsValue :=
  match o with
  | Fulfilled _ => mret JUndefined
  | Rejected e => mthrow e
  end.

(** The continuation of a suspended function. *)
Definition resume (t : Task) (o : Outcome) : M JsValue :=
  match t with
  | AwaitDependencies => onFirstSubscribtion_inner_settled o
  | AwaitLoadAll => onFirstSubscribtion_settled o
  | AwaitMapping => tryLoadValue_settled o
  end.

(** What the event loop can run on the closures: a call of the
    first-subscription notifier (a [StartStopNotifier] is called by the
    store it is given to each time the number of subscribers goes from
    zero to one), or the continuation of a suspended function whose
    promise has settled. *)
Inductive Turn : Type :=
| FirstSubscription (set : JsValue)
| Settle (i : nat) (o : Outcome).

Definition turn (t : Turn) (w : World) : option World :=
  match t with
  | FirstSubscription set => Some (world_after (onFirstSubscribtion set w))
  | Settle i o =>
      task ← suspended w !! i;
      Some (world_after (resume task o (unpark i w)))
  end.

Fixpoint run (ts : list Turn) (w : World) : option World :=
  match ts with
  | [] => Some w
  | t :: ts => w' ← turn t w; run ts w'
  end.

End Closures.

(** ** §4.5 asyncDerived (index.ts, lines 119-139) *)

#[global] Instance Completion_ret : MRet Completion := fun A a => Normal a.

#[global] Instance Completion_bind : MBind Completion := fun A B f c =>
  match c with
  | Normal a => f a
  | Throw e => Throw e
  end.

(** The destructuring of the result [r] of [asyncWritable] and the
    object literal that [asyncDerived] returns. *)
Definition asyncDerived_capabilities (r : JsValue) : Completion JsValue :=
  store ← member r "store";
  subscribe ← member r "subscribe";
  load ← member r "load";
  reload ← member r "reload";
  state ← member r "state";
  reset ← member r "reset";
  mret (JObject
    (spread_if "reset" reset
      (spread_if "state" state
        (spread_if "reload" reload
          (<["load" := load]> (<["subscribe" := subscribe]> (<["store" := store]> ∅))))))).

Definition asyncDerived (stores mappingLoadFunction options : JsValue) : M JsValue :=
  r ← asyncWritable stores mappingLoadFunction JUndefined options;
  lift (asyncDerived_capabilities r).

(** The underlying construction produced a capability when the member it
    returned is truthy, which for the functions and stores of a
    [Loadable] means: when it is there. *)
Definition produced (r : JsValue) (key : string) : Prop :=
  exists v, member r key = Normal v /\ truthy v = true.

(** The flag record with no flag set. *)
Definition noFlags : LoadState := mkLoadState false false false false false false false.

(** The number of base flags that are set. *)
Definition base_flags_set (r : LoadState) : nat :=
  length (filter (fun b => b = true) (base_flags r)).

#[global] Instance State_eq_dec : EqDecision State.
Proof. solve_decision. Defined.

(** The cancellation indicator: a rejection reason whose [name] is
    ['AbortError']. *)
Definition is_cancellation (e : JsValue) : Prop :=
  member e "name" = Normal (JStr "AbortError").

(** Error objects for the examples, as [new DOMException(message,
    'AbortError')] and [new Error(message)] make them. *)
Definition AbortError (message : string) : JsValue :=
  JObject (<["name" := JStr "AbortError"]> (<["message" := JStr message]> ∅)).

Definition Error (message : string) : JsValue :=
  JObject (<["name" := JStr "Error"]> (<["message" := JStr message]> ∅)).

(** The world with the error handed to the logging hook and the tracked
    state, when there is one, set to ERROR. *)
Definition reported (e : JsValue) (w : World) : World :=
  mkWorld (anyStoreCreated w) (errorLog w ++ [e])
    ((fun _ => getLoadState (tag ERROR)) <$> loadState w)
    (ready w) (calls w) (suspended w).

(** The number of calls of the first-subscription notifier in a run. *)
Fixpoint notifier_calls (ts : list Turn) : nat :=
  match ts with
  | [] => 0
  | FirstSubscription _ :: ts => S (notifier_calls ts)
  | Settle _ _ :: ts => notifier_calls ts
  end.

#[global] Instance Task_eq_dec : EqDecision Task.
Proof. solve_decision. Defined.

(** The number of dependency loads of the notifier still awaited. *)
Definition awaited_dependencies (w : World) : nat :=
  length (filter (fun t => t = AwaitDependencies) (suspended w)).

(** The rejections that a run delivers to [tryLoadValue] are all
    cancellations. *)
Fixpoint only_cancellations (stores : JsValue) (ts : list Turn) (w : World) : Prop :=
  match ts with
  | [] => True
  | t :: ts =>
      match t with
      | Settle i (Rejected e) => suspended w !! i = Some AwaitMapping -> is_cancellation e
      | _ => True
      end
      /\ match turn stores t w with
         | Some w' => only_cancellations stores ts w'
         | None => True
         end
  end.

(** ** §4.5 asyncReadable (index.ts, lines 151-157) *)

(** [...v] inside an object literal copies the own enumerable properties
    of [v]: the properties of an object, the characters of a string under
    their indices; [undefined], [null], booleans and numbers have none. *)
Definition spread (v : JsValue) : gmap string JsValue :=
  match v with
  | JObject props => props
  | JStr s =>
      list_to_map
        (imap (fun i c => (pretty i, JStr (String c EmptyString))) (String.list_ascii_of_string s))
  | JUndefined | JNull | JBool _ | JNaN | JNum _ => ∅
  end.

(** The array literal [[]]. *)
Definition empty_array : JsValue := JObject (<["length" := JNum 0]> ∅).

(** [asyncReadable]: [asyncDerived([], loadFunction, { ...options,
    initial })]. *)
Definition asyncReadable (initial loadFunction options : JsValue) : M JsValue :=
  asyncDerived empty_array loadFunction
    (JObject (<["initial" := initial]> (spread options))).

(** A rejection reason that the [catch] block of [tryLoadValue] reports:
    its [name] can be read and is not ['AbortError']. *)
Definition reportable (e : JsValue) : Prop :=
  exists name, member e "name" = Normal name /\ strict_eq_str name "AbortError" = false.

(** The reasons of the rejections that a run delivers, in order. *)
Fixpoint rejections (ts : list Turn) : list JsValue :=
  match ts with
  | [] => []
  | Settle _ (Rejected e) :: ts => e :: rejections ts
  | _ :: ts => rejections ts
  end.

(** An example run: on a container that tracks its state a first
    subscriber attaches, the dependencies load, and the mapping function
    fails. *)
Definition tracking_world : World :=
  mkWorld true [] (Some (getLoadState "LOADING")) false [] [].

Definition failing_turns : list Turn :=
  [FirstSubscription JUndefined; Settle 0 (Fulfilled (JNum 7));
   Settle 1 (Rejected (Error "boom"))].

Definition failed_world : World :=
  mkWorld true [Error "boom"] (Some (getLoadState "ERROR")) true
    [LoadAll empty_array; LoadAll JUndefined; Mapping (JNum 7)] [AwaitLoadAll].

(** The values with which a run fulfils awaited promises, in order. *)
Fixpoint fulfilments (ts : list Turn) : list JsValue :=
  match ts with
  | [] => []
  | Settle _ (Fulfilled v) :: ts => v :: fulfilments ts
  | _ :: ts => fulfilments ts
  end.

(** * Properties *)

(** ** The state classifier *)

Example getLoadState_LOADING :
  getLoadState "LOADING" = mkLoadState true false false false false true false.
Proof. reflexivity. Qed.

Example getLoadState_RELOADING :
  getLoadState "RELOADING" = mkLoadState false true false false false true false.
Proof. reflexivity. Qed.

Example getLoadState_WRITING :
  getLoadState "WRITING" = mkLoadState false false false true false false false.
Proof. reflexivity. Qed.

Example getLoadState_ERROR :
  getLoadState "ERROR" = mkLoadState false false false false true false true.
Proof. reflexivity. Qed.

Example getLoadState_lowercase : getLoadState "loading" = noFlags.
Proof. reflexivity. Qed.

Lemma tag_inj : Inj (=) (=) tag.
Proof. intros [] [] H; first [reflexivity | discriminate H]. Qed.

Lemma elem_of_state_tags (s : string) : s ∈ state_tags <-> exists st, s = tag st.
Proof.
  unfold state_tags. rewrite list_elem_of_fmap. split.
  - intros (st & -> & _). by exists st.
  - intros (st & ->). exists st. split; [done|]. destruct st; set_solver.
Qed.

(** A string that is none of the five literals sets no flag. *)
Lemma getLoadState_other (s : string) : s ∉ state_tags -> getLoadState s = noFlags.
Proof.
  intros Hs. unfold getLoadState, noFlags.
  assert (forall st, s <> tag st) as Hne.
  { intros st ->. apply Hs, elem_of_state_tags. by exists st. }
  rewrite !bool_decide_eq_false_2
    by first [exact (Hne LOADING) | exact (Hne RELOADING) | exact (Hne LOADED)
             | exact (Hne WRITING) | exact (Hne ERROR)].
  reflexivity.
Qed.

(** C8: for each of the five state tags, the classifier sets the flag of
    that tag and none of the other four base flags; [isPending] is set
    exactly for LOADING and RELOADING, [isSettled] exactly for LOADED and
    ERROR. *)
Theorem getLoadState_tag (st : State) :
  base_flags (getLoadState (tag st)) =
    [bool_decide (st = LOADING); bool_decide (st = RELOADING); bool_decide (st = LOADED);
     bool_decide (st = WRITING); bool_decide (st = ERROR)]
  /\ isPending (getLoadState (tag st)) = bool_decide (st = LOADING \/ st = RELOADING)
  /\ isSettled (getLoadState (tag st)) = bool_decide (st = LOADED \/ st = ERROR).
Proof. destruct st; repeat split. Qed.

(** C10: on every string the classifier returns a flag record (it is a
    total function: no input makes it throw); at most one of the five
    base flags is set, and a string that is none of the five tags sets
    none of the seven flags. *)
Theorem getLoadState_any_string (s : string) :
  base_flags_set (getLoadState s) <= 1
  /\ (s ∉ state_tags -> all_flags (getLoadState s) = replicate 7 false).
Proof.
  split.
  - destruct (decide (s ∈ state_tags)) as [Hin | Hout].
    + apply elem_of_state_tags in Hin as [st ->]. destruct st; vm_compute; lia.
    + rewrite (getLoadState_other s Hout). vm_compute. lia.
  - intros Hout. by rewrite (getLoadState_other s Hout).
Qed.

Lemma IDLE_unrecognized : "IDLE" ∉ state_tags.
Proof. rewrite elem_of_state_tags. intros [st Hst]. destruct st; discriminate Hst. Qed.

Lemma getLoadState_any_string_witness :
  ("IDLE" ∉ state_tags)
  /\ base_flags_set (getLoadState "IDLE") <= 1
  /\ all_flags (getLoadState "IDLE") = replicate 7 false.
Proof.
  pose proof (getLoadState_any_string "IDLE") as [Hone Hnone].
  split; [exact IDLE_unrecognized | split; [exact Hone | exact (Hnone IDLE_unrecognized)]].
Defined.

(** C9, as stated, fails: the classifier applied to the unrecognized tag
    ["IDLE"] is not a fatal error, it returns an ordinary flag record. *)
Lemma getLoadState_unrecognized_returns :
  ("IDLE" ∉ state_tags) /\ getLoadState "IDLE" = noFlags.
Proof. split; [exact IDLE_unrecognized | reflexivity]. Qed.

(** C9, amended: the classifier tells exactly the five tags apart from
    every other string: it sets a base flag if and only if its argument
    is one of the five tags, and on any other string it still returns a
    flag record, the one with all seven flags unset. *)
Theorem getLoadState_recognizes_five_tags (s : string) :
  (s ∈ state_tags <-> base_flags_set (getLoadState s) = 1)
  /\ (s ∉ state_tags <-> getLoadState s = noFlags).
Proof.
  destruct (decide (s ∈ state_tags)) as [Hin | Hout].
  - pose proof Hin as Hin'. apply elem_of_state_tags in Hin' as [st ->].
    split; split; intros H; try done.
    + by destruct st.
    + by destruct st.
  - rewrite (getLoadState_other s Hout). split; split; intros H; try done.
Qed.

(** ** Load error handling: [tryLoadValue] *)

Example tryLoadValue_calls_mapping :
  world_after (tryLoadValue (JNum 1) initial_world)
  = mkWorld false [] None false [Mapping (JNum 1)] [AwaitMapping].
Proof. reflexivity. Qed.

Example tryLoadValue_fulfilled :
  tryLoadValue_settled (Fulfilled (JNum 5)) initial_world = (initial_world, Normal (JNum 5)).
Proof. reflexivity. Qed.

Example tryLoadValue_abort :
  tryLoadValue_settled (Rejected (AbortError "aborted")) initial_world
  = (initial_world, Throw (AbortError "aborted")).
Proof. reflexivity. Qed.

Example tryLoadValue_error :
  tryLoadValue_settled (Rejected (Error "boom"))
    (mkWorld true [] (Some (getLoadState "LOADING")) true [Mapping JNull] [])
  = (mkWorld true [Error "boom"] (Some (getLoadState "ERROR")) true [Mapping JNull] [],
     Throw (Error "boom")).
Proof. reflexivity. Qed.

(** The call segment of [tryLoadValue] touches neither the logging hook
    nor the tracked state. *)
Lemma tryLoadValue_call_silent (values : JsValue) (w : World) :
  errorLog (world_after (tryLoadValue values w)) = errorLog w
  /\ loadState (world_after (tryLoadValue values w)) = loadState w.
Proof. split; reflexivity. Qed.

(** C3: when the mapping function fails with the cancellation indicator,
    neither the call of [tryLoadValue] nor its [catch] block, in whatever
    world the rejection arrives, invokes the logging hook or changes the
    tracked state: the world is left as it was and the rejection is
    passed on. *)
Theorem tryLoadValue_cancellation_silent (values e : JsValue) (w w' : World) :
  is_cancellation e ->
  errorLog (world_after (tryLoadValue values w)) = errorLog w
  /\ loadState (world_after (tryLoadValue values w)) = loadState w
  /\ errorLog (world_after (tryLoadValue_settled (Rejected e) w')) = errorLog w'
  /\ loadState (world_after (tryLoadValue_settled (Rejected e) w')) = loadState w'
  /\ tryLoadValue_settled (Rejected e) w' = (w', Throw e).
Proof.
  intros Hname.
  assert (tryLoadValue_settled (Rejected e) w' = (w', Throw e)) as Hrun.
  { unfold tryLoadValue_settled, mbind, M_bind, lift. rewrite Hname. reflexivity. }
  rewrite Hrun. repeat split.
Qed.

Lemma tryLoadValue_cancellation_silent_witness :
  let w := mkWorld true [] (Some (getLoadState "RELOADING")) true [Mapping (JNum 1)] [] in
  is_cancellation (AbortError "The operation was aborted")
  /\ loadState (world_after
        (tryLoadValue_settled (Rejected (AbortError "The operation was aborted")) w))
     = Some (getLoadState "RELOADING")
  /\ errorLog (world_after
        (tryLoadValue_settled (Rejected (AbortError "The operation was aborted")) w))
     = [].
Proof.
  intros w.
  assert (is_cancellation (AbortError "The operation was aborted")) as Hname
    by reflexivity.
  pose proof (tryLoadValue_cancellation_silent (JNum 1) _ w w Hname)
    as (_ & _ & Hlog & Hstate & _).
  split; [exact Hname | split; [exact Hstate | exact Hlog]].
Defined.

(** X5: a rejection reason whose [name] can be read and is not
    ['AbortError'] is handed to the logging hook, the tracked state, when
    there is one, becomes ERROR, and the same reason is thrown again. *)
Lemma tryLoadValue_failure_reported (e name : JsValue) (w : World) :
  member e "name" = Normal name ->
  strict_eq_str name "AbortError" = false ->
  tryLoadValue_settled (Rejected e) w = (reported e w, Throw e).
Proof.
  intros Hmember Hname.
  unfold tryLoadValue_settled, mbind, M_bind, lift. rewrite Hmember, Hname. reflexivity.
Qed.

(** C4 at the rejection reason [undefined] (as of [Promise.reject()]):
    reading [e.name] in the [catch] block throws a [TypeError]; the
    logging hook is not invoked, the tracked state is not changed, and
    the caller receives the [TypeError] instead of the rejection reason. *)
Theorem tryLoadValue_rejected_with_undefined (w : World) :
  tryLoadValue_settled (Rejected JUndefined) w
  = (w, Throw (TypeError "Cannot read properties of undefined")).
Proof. reflexivity. Qed.

Lemma tryLoadValue_rejected_with_null (w : World) :
  tryLoadValue_settled (Rejected JNull) w
  = (w, Throw (TypeError "Cannot read properties of null")).
Proof. reflexivity. Qed.

(** ** Construction and the first-subscription notifier *)

Example asyncWritable_default_options :
  asyncWritable (JObject ∅) (JObject ∅) JUndefined JUndefined initial_world
  = (mkWorld true [] None false [] [], Normal JUndefined).
Proof. reflexivity. Qed.

Example asyncWritable_trackState :
  asyncWritable (JObject ∅) (JObject ∅) JUndefined
    (JObject (<["trackState" := JBool true]> ∅)) initial_world
  = (mkWorld true [] (Some (getLoadState "LOADING")) false [] [], Normal JUndefined).
Proof. reflexivity. Qed.

Example onFirstSubscribtion_starts_two_loads :
  world_after (onFirstSubscribtion (JStr "deps") JUndefined initial_world)
  = mkWorld false [] None false [LoadAll (JStr "deps"); LoadAll JUndefined]
      [AwaitDependencies; AwaitLoadAll].
Proof. reflexivity. Qed.

Example first_subscription_run :
  run (JStr "deps")
    [FirstSubscription JUndefined; Settle 0 (Fulfilled (JNum 7));
     Settle 0 (Rejected (Error "no stores")); Settle 0 (Fulfilled (JNum 8))]
    initial_world
  = Some (mkWorld false [] None true
            [LoadAll (JStr "deps"); LoadAll JUndefined; Mapping (JNum 7)] []).
Proof. reflexivity. Qed.

(** Whatever the options, the body of [asyncWritable] calls neither the
    dependency loader nor the mapping function and suspends nothing. *)
Lemma asyncWritable_no_loading (stores f g options : JsValue) (w : World) :
  calls (world_after (asyncWritable stores f g options w)) = calls w
  /\ suspended (world_after (asyncWritable stores f g options w)) = suspended w.
Proof.
  unfold asyncWritable, mbind, M_bind, lift.
  destruct options; simpl; repeat split.
Qed.

(** With an object (or no argument) for the options, the call evaluates
    to [undefined]. *)
Lemma asyncWritable_returns_undefined (stores f g : JsValue) (props : gmap string JsValue)
    (w : World) :
  completion (asyncWritable stores f g (JObject props) w) = Normal JUndefined
  /\ completion (asyncWritable stores f g JUndefined w) = Normal JUndefined.
Proof. split; reflexivity. Qed.

(** The continuation of [tryLoadValue] makes no call and suspends nothing. *)
Lemma tryLoadValue_settled_frame (o : Outcome) (w : World) :
  calls (world_after (tryLoadValue_settled o w)) = calls w
  /\ suspended (world_after (tryLoadValue_settled o w)) = suspended w
  /\ ready (world_after (tryLoadValue_settled o w)) = ready w.
Proof.
  destruct o as [v | e]; [repeat split |].
  unfold tryLoadValue_settled, mbind, M_bind, lift.
  destruct (member e "name") as [name | e']; [| repeat split].
  destruct (strict_eq_str name "AbortError"); repeat split.
Qed.

Lemma awaited_dependencies_unpark (i : nat) (t : Task) (w : World) :
  suspended w !! i = Some t ->
  awaited_dependencies w
  = awaited_dependencies (unpark i w) + (if decide (t = AwaitDependencies) then 1 else 0).
Proof.
  intros Hi. unfold awaited_dependencies, unpark. simpl.
  rewrite <- (take_drop_middle _ _ _ Hi) at 1.
  rewrite delete_take_drop, !filter_app, filter_cons, !length_app.
  destruct (decide (t = AwaitDependencies)); simpl; lia.
Qed.

Lemma mapping_calls_unpark (i : nat) (w : World) :
  mapping_calls (unpark i w) = mapping_calls w.
Proof. reflexivity. Qed.

(** One turn of the event loop: every new call of the mapping function
    uses up an awaited dependency load, and only a call of the notifier
    adds one. *)
Lemma turn_mapping_calls (stores : JsValue) (t : Turn) (w w' : World) :
  turn stores t w = Some w' ->
  length (mapping_calls w') + awaited_dependencies w'
  <= length (mapping_calls w) + awaited_dependencies w + notifier_calls [t].
Proof.
  destruct t as [set | i o]; simpl.
  - intros [= <-]. unfold mapping_calls, awaited_dependencies. simpl.
    rewrite !omap_app, !filter_app, !length_app. simpl. lia.
  - destruct (suspended w !! i) as [task |] eqn:Hi; simpl; [| discriminate].
    intros [= <-]. rewrite (awaited_dependencies_unpark i task w Hi).
    rewrite <- (mapping_calls_unpark i w).
    generalize (unpark i w) as u. intros u.
    destruct task; simpl.
    + destruct o as [values | e]; simpl.
      * unfold mapping_calls, awaited_dependencies. simpl.
        rewrite omap_app, filter_app, !length_app. simpl. lia.
      * lia.
    + destruct o; simpl; lia.
    + destruct (tryLoadValue_settled_frame o u) as (Hc & Hs & _).
      unfold mapping_calls, awaited_dependencies. rewrite Hc, Hs. lia.
Qed.

Lemma run_mapping_calls (stores : JsValue) (ts : list Turn) :
  forall w w', run stores ts w = Some w' ->
  length (mapping_calls w') + awaited_dependencies w'
  <= length (mapping_calls w) + awaited_dependencies w + notifier_calls ts.
Proof.
  induction ts as [| t ts IH]; simpl; intros w w'.
  - intros [= <-]. lia.
  - destruct (turn stores t w) as [w1 |] eqn:Ht; simpl; [| discriminate].
    intros Hrun. specialize (IH _ _ Hrun).
    pose proof (turn_mapping_calls stores t w w1 Ht) as Hstep.
    destruct t; simpl in *; lia.
Qed.

(** A call of the notifier starts [loadAll(stores)] and [loadAll()];
    it does not call the mapping function and does not touch [ready]. *)
Lemma onFirstSubscribtion_calls (stores set : JsValue) (w : World) :
  loadAll_calls (world_after (onFirstSubscribtion stores set w))
  = loadAll_calls w ++ [stores; JUndefined]
  /\ mapping_calls (world_after (onFirstSubscribtion stores set w)) = mapping_calls w
  /\ ready (world_after (onFirstSubscribtion stores set w)) = ready w.
Proof.
  unfold loadAll_calls, mapping_calls. simpl.
  rewrite !omap_app. simpl. rewrite !app_nil_r, <- app_assoc. repeat split.
Qed.

(** Once [loadAll(stores)] is fulfilled, [ready] is set and the mapping
    function is called once with the values. *)
Lemma onFirstSubscribtion_inner_fulfilled (values : JsValue) (w : World) :
  ready (world_after (onFirstSubscribtion_inner_settled (Fulfilled values) w)) = true
  /\ mapping_calls (world_after (onFirstSubscribtion_inner_settled (Fulfilled values) w))
     = mapping_calls w ++ [values].
Proof.
  unfold mapping_calls. simpl. rewrite omap_app. repeat split.
Qed.

(** The notifier function does not test [ready]: called again after a
    first call has completed (dependencies loaded, mapping function
    called once, [ready] set), it loads again and calls the mapping
    function a second time. *)
Lemma initial_load_not_guarded_by_ready :
  exists w1 w2 : World,
    run (JObject ∅)
      [FirstSubscription JUndefined; Settle 0 (Fulfilled (JNum 7));
       Settle 0 (Fulfilled (JObject ∅)); Settle 0 (Fulfilled (JNum 49))]
      (world_after (asyncWritable (JObject ∅) (JObject ∅) JUndefined JUndefined initial_world))
    = Some w1
    /\ ready w1 = true /\ suspended w1 = [] /\ mapping_calls w1 = [JNum 7]
    /\ run (JObject ∅) [FirstSubscription JUndefined; Settle 0 (Fulfilled (JNum 7))] w1
       = Some w2
    /\ mapping_calls w2 = [JNum 7; JNum 7].
Proof.
  exists (mkWorld true [] None true
            [LoadAll (JObject ∅); LoadAll JUndefined; Mapping (JNum 7)] []).
  exists (mkWorld true [] None true
            [LoadAll (JObject ∅); LoadAll JUndefined; Mapping (JNum 7);
             LoadAll (JObject ∅); LoadAll JUndefined; Mapping (JNum 7)]
            [AwaitLoadAll; AwaitMapping]).
  split; [reflexivity |].
  split; [reflexivity |].
  split; [reflexivity |].
  split; [reflexivity |].
  split; reflexivity.
Qed.

(** X18: constructing a container performs no loading work, and over
    any run of the closures on it the mapping function is called at most
    once per call of the function [onFirstSubscribtion] (never without
    one).  A call of that function starts the dependency loads without
    calling the mapping function; when the dependencies have loaded, the
    flag [ready] is set and the mapping function is called exactly once,
    whatever [ready] was before; when they fail to load, nothing
    happens. *)
Theorem initial_load_once_per_notifier_call
    (stores f g options set values e : JsValue) (ts : list Turn) (w w' : World) :
  calls (world_after (asyncWritable stores f g options w)) = calls w
  /\ (run stores ts (world_after (asyncWritable stores f g options initial_world)) = Some w' ->
      length (mapping_calls w') <= notifier_calls ts)
  /\ loadAll_calls (world_after (onFirstSubscribtion stores set w))
     = loadAll_calls w ++ [stores; JUndefined]
  /\ mapping_calls (world_after (onFirstSubscribtion stores set w)) = mapping_calls w
  /\ ready (world_after (onFirstSubscribtion_inner_settled (Fulfilled values) w)) = true
  /\ mapping_calls (world_after (onFirstSubscribtion_inner_settled (Fulfilled values) w))
     = mapping_calls w ++ [values]
  /\ world_after (onFirstSubscribtion_inner_settled (Rejected e) w) = w.
Proof.
  split; [apply asyncWritable_no_loading |].
  split.
  { intros Hrun. apply run_mapping_calls in Hrun.
    destruct (asyncWritable_no_loading stores f g options initial_world) as [Hc Hs].
    assert (mapping_calls (world_after (asyncWritable stores f g options initial_world)) = [])
      as Hm by (unfold mapping_calls; rewrite Hc; reflexivity).
    assert (awaited_dependencies
              (world_after (asyncWritable stores f g options initial_world)) = 0)
      as Ha by (unfold awaited_dependencies; rewrite Hs; reflexivity).
    rewrite Hm, Ha in Hrun. simpl in Hrun. lia. }
  destruct (onFirstSubscribtion_calls stores set w) as (Hl & Hm & _).
  destruct (onFirstSubscribtion_inner_fulfilled values w) as (Hr & Hm').
  repeat split; assumption.
Qed.

Lemma initial_load_once_per_notifier_call_witness :
  let ts := [FirstSubscription JUndefined; Settle 0 (Fulfilled (JNum 7))] in
  let w0 := world_after
    (asyncWritable (JObject ∅) (JObject ∅) JUndefined JUndefined initial_world) in
  let w' := mkWorld true [] None true
    [LoadAll (JObject ∅); LoadAll JUndefined; Mapping (JNum 7)] [AwaitLoadAll; AwaitMapping] in
  run (JObject ∅) ts w0 = Some w' /\ length (mapping_calls w') <= 1.
Proof.
  intros ts w0 w'.
  assert (run (JObject ∅) ts w0 = Some w') as Hrun by reflexivity.
  split; [exact Hrun |].
  exact (proj1 (proj2 (initial_load_once_per_notifier_call
    (JObject ∅) (JObject ∅) JUndefined JUndefined JUndefined JUndefined JUndefined
    ts initial_world w')) Hrun).
Defined.

(** ** The capability record of [asyncDerived] *)

Example asyncDerived_capabilities_plain :
  asyncDerived_capabilities
    (JObject (<["store" := JObject ∅]> (<["subscribe" := JObject ∅]>
             (<["load" := JObject ∅]> (<["set" := JObject ∅]>
             (<["update" := JObject ∅]> ∅))))))
  = Normal (JObject (<["load" := JObject ∅]> (<["subscribe" := JObject ∅]>
                    (<["store" := JObject ∅]> ∅)))).
Proof. reflexivity. Qed.

Example asyncDerived_capabilities_undefined :
  asyncDerived_capabilities JUndefined
  = Throw (TypeError "Cannot read properties of undefined").
Proof. reflexivity. Qed.

(** For functions and stores, which are objects, produced means present. *)
Lemma produced_object (props members : gmap string JsValue) (key : string) :
  props !! key = Some (JObject members) -> produced (JObject props) key.
Proof. intros Hkey. exists (JObject members). simpl. rewrite Hkey. by split. Qed.

Lemma produced_absent (props : gmap string JsValue) (key : string) :
  props !! key = None -> ~ produced (JObject props) key.
Proof. intros Hkey (v & Hv & Ht). simpl in Hv. rewrite Hkey in Hv. by injection Hv as <-. Qed.

Lemma has_key_spread_if (key k : string) (v : JsValue) (m : gmap string JsValue) :
  is_Some (spread_if k v m !! key)
  <-> (key = k /\ truthy v = true) \/ is_Some (m !! key).
Proof.
  unfold spread_if. destruct (truthy v).
  - rewrite lookup_insert_is_Some. destruct (decide (k = key)) as [-> | Hne].
    + split; auto.
    + split.
      * intros [? | [_ ?]]; [congruence | auto].
      * intros [[-> _] | ?]; [congruence | auto].
  - split; [auto | intros [[_ ?] | ?]; [discriminate | assumption]].
Qed.

(** Chooses the disjunct of a key case distinction that holds. *)
Ltac pick_key :=
  first [ solve [repeat split; first [reflexivity | discriminate | assumption]]
        | left; pick_key
        | right; pick_key
        | split; [solve [discriminate] | pick_key] ].

(** The keys of the returned record, for every result [r] of the
    underlying construction from which members can be read. *)
Lemma asyncDerived_capabilities_keys (r : JsValue) :
  r <> JUndefined -> r <> JNull ->
  exists record : gmap string JsValue,
    asyncDerived_capabilities r = Normal (JObject record)
    /\ forall key : string,
         is_Some (record !! key)
         <-> key = "store" \/ key = "subscribe" \/ key = "load"
             \/ (key ∈ ["reload"; "state"; "reset"] /\ produced r key).
Proof.
  intros Hu Hn.
  assert (exists get : string -> JsValue,
            (forall key, member r key = Normal (get key))) as [get Hget].
  { destruct r; try congruence; eexists (fun key => _); intros key; simpl; reflexivity. }
  eexists. split.
  { unfold asyncDerived_capabilities, mbind, Completion_bind. rewrite !Hget. reflexivity. }
  intros key. rewrite !has_key_spread_if, !lookup_insert_is_Some, lookup_empty.
  unfold produced. setoid_rewrite Hget.
  rewrite !elem_of_cons, elem_of_nil.
  split.
  - intros [[-> Ht] | [[-> Ht] | [[-> Ht] | [<- | [_ [<- | [_ [<- | [_ Hnone]]]]]]]]];
      [| | | auto | auto | auto | by apply is_Some_None in Hnone];
      (right; right; right; split; [auto 6 | eexists; split; [reflexivity | exact Ht]]).
  - intros [-> | [-> | [-> | [Hkey (v & [= <-] & Ht)]]]]; [pick_key | pick_key | pick_key |].
    destruct Hkey as [-> | [-> | [-> | []]]]; pick_key.
Qed.

(** X19: on every value other than [undefined] and [null] for the
    result of the underlying construction, the destructuring and the
    object literal of [asyncDerived] give a record that has no [set] and
    no [update] member, has [store], [subscribe] and [load], and has
    [reload], [state] and [reset] exactly when the underlying result
    holds a truthy member of that name. *)
Theorem asyncDerived_capability_record (r : JsValue) :
  r <> JUndefined -> r <> JNull ->
  exists record : JsValue,
    asyncDerived_capabilities r = Normal record
    /\ ~ has_key record "set" /\ ~ has_key record "update"
    /\ has_key record "store" /\ has_key record "subscribe" /\ has_key record "load"
    /\ (has_key record "reload" <-> produced r "reload")
    /\ (has_key record "state" <-> produced r "state")
    /\ (has_key record "reset" <-> produced r "reset").
Proof.
  intros Hu Hn.
  destruct (asyncDerived_capabilities_keys r Hu Hn) as (record & Hrun & Hkeys).
  exists (JObject record). split; [exact Hrun |]. simpl.
  rewrite !Hkeys, !elem_of_cons, !elem_of_nil.
  repeat split.
  - intros [H | [H | [H | [[H | [H | [H | []]]] _]]]]; discriminate H.
  - intros [H | [H | [H | [[H | [H | [H | []]]] _]]]]; discriminate H.
  - auto.
  - auto.
  - auto.
  - intros [H | [H | [H | [_ H]]]]; first [discriminate H | exact H].
  - intros H. right; right; right. split; [auto | exact H].
  - intros [H | [H | [H | [_ H]]]]; first [discriminate H | exact H].
  - intros H. right; right; right. split; [auto | exact H].
  - intros [H | [H | [H | [_ H]]]]; first [discriminate H | exact H].
  - intros H. right; right; right. split; [auto 6 | exact H].
Qed.

Lemma asyncDerived_capability_record_witness :
  let load := JObject (<["name" := JStr "load"]> ∅) in
  let r := JObject (<["store" := JObject ∅]> (<["subscribe" := JObject ∅]>
                   (<["load" := load]> (<["reload" := load]>
                   (<["set" := load]> (<["update" := load]> ∅)))))) in
  r <> JUndefined /\ r <> JNull
  /\ asyncDerived_capabilities r
     = Normal (JObject (<["store" := JObject ∅]> (<["subscribe" := JObject ∅]>
                       (<["load" := load]> (<["reload" := load]> ∅)))))
  /\ exists record : JsValue,
       asyncDerived_capabilities r = Normal record
       /\ ~ has_key record "set" /\ has_key record "load"
       /\ (has_key record "reload" <-> produced r "reload").
Proof.
  intros load r.
  assert (r <> JUndefined) as Hu by discriminate.
  assert (r <> JNull) as Hn by discriminate.
  split; [exact Hu |]. split; [exact Hn |]. split; [reflexivity |].
  destruct (asyncDerived_capability_record r Hu Hn)
    as (record & Hrun & Hset & _ & _ & _ & Hload & Hreload & _).
  exists record. repeat split; first [exact Hrun | exact Hset | exact Hload | apply Hreload].
Defined.

(** [asyncDerived] is the underlying construction followed by the
    assembly of the record. *)
Lemma asyncDerived_unfold (stores f options : JsValue) (w : World) :
  asyncDerived stores f options w
  = match asyncWritable stores f JUndefined options w with
    | (w', Normal r) => (w', asyncDerived_capabilities r)
    | (w', Throw e) => (w', Throw e)
    end.
Proof. reflexivity. Qed.

(** C7 on the code: [asyncWritable] returns [undefined], so
    [asyncDerived] has nothing to destructure: every call with an options
    object, or none, throws a [TypeError] at line 124 and no capability
    record is returned. *)
Lemma asyncDerived_throws (stores f : JsValue) (props : gmap string JsValue) (w : World) :
  completion (asyncDerived stores f (JObject props) w)
  = Throw (TypeError "Cannot read properties of undefined")
  /\ completion (asyncDerived stores f JUndefined w)
     = Throw (TypeError "Cannot read properties of undefined").
Proof. split; reflexivity. Qed.

(** ** What [asyncWritable] leaves undone *)

(** C1 on the code: [asyncWritable] returns [undefined], so there is no
    [load] to call: reading it throws.  The one function that calls the
    mapping function, [tryLoadValue], calls it each time it is called;
    no result in flight is kept or shared. *)
Theorem asyncWritable_exposes_no_load
    (stores f g values : JsValue) (props : gmap string JsValue) (w : World) :
  completion (asyncWritable stores f g (JObject props) w) = Normal JUndefined
  /\ member JUndefined "load" = Throw (TypeError "Cannot read properties of undefined")
  /\ mapping_calls (world_after (tryLoadValue values (world_after (tryLoadValue values w))))
     = mapping_calls w ++ [values; values].
Proof.
  repeat split. unfold mapping_calls. simpl.
  rewrite !omap_app, <- app_assoc. reflexivity.
Qed.

(** Constructing a container touches only the creation flag, the
    tracked state and [ready].  A load that is fulfilled hands its value
    back and leaves the world as it is: the tracked state does not become
    LOADED. *)
Theorem asyncWritable_commits_no_result
    (stores f g v : JsValue) (props : gmap string JsValue) (w : World) :
  world_after (asyncWritable stores f g (JObject props) w)
  = mkWorld true (errorLog w)
      (if truthy (default JUndefined (props !! "trackState"))
       then Some (getLoadState "LOADING") else None)
      false (calls w) (suspended w)
  /\ tryLoadValue_settled (Fulfilled v) w = (w, Normal v).
Proof. split; reflexivity. Qed.

(** C5 on the code: the write function is ignored, and since
    [asyncWritable] returns [undefined] there is neither [set] nor
    [update]: reading either throws. *)
Theorem asyncWritable_exposes_no_set
    (stores f g options : JsValue) (props : gmap string JsValue) (w : World) :
  asyncWritable stores f g options w = asyncWritable stores f JUndefined options w
  /\ completion (asyncWritable stores f g (JObject props) w) = Normal JUndefined
  /\ member JUndefined "set" = Throw (TypeError "Cannot read properties of undefined")
  /\ member JUndefined "update" = Throw (TypeError "Cannot read properties of undefined").
Proof. repeat split. Qed.

(** ** The logging hook and the tracked state over a run *)

Section Runs.
Variable stores : JsValue.

(** Only the [catch] block of [tryLoadValue] reaches the logging hook or
    the tracked state: every other turn leaves both alone. *)
Lemma turn_frame (t : Turn) (w w' : World) :
  turn stores t w = Some w' ->
  (forall i e, t = Settle i (Rejected e) -> suspended w !! i <> Some AwaitMapping) ->
  errorLog w' = errorLog w /\ loadState w' = loadState w.
Proof.
  destruct t as [set | i o]; simpl.
  - intros [= <-] _. split; reflexivity.
  - destruct (suspended w !! i) as [task |] eqn:Hi; simpl; [| discriminate].
    intros [= <-] Hother. destruct task, o as [v | e]; try (split; reflexivity).
    exfalso. exact (Hother i e eq_refl Hi).
Qed.

(** X6: over a run that delivers only cancellations to [tryLoadValue],
    the logging hook is never invoked and the tracked state never
    changes. *)
Lemma run_cancellations_silent (ts : list Turn) :
  forall w w', run stores ts w = Some w' ->
  only_cancellations stores ts w ->
  errorLog w' = errorLog w /\ loadState w' = loadState w.
Proof.
  induction ts as [| t ts IH]; simpl; intros w w'.
  - intros [= <-] _. split; reflexivity.
  - destruct (turn stores t w) as [w1 |] eqn:Ht; simpl; [| discriminate].
    intros Hrun [Hcancel Hrest].
    destruct (IH _ _ Hrun Hrest) as [Hlog Hstate]. rewrite Hlog, Hstate. clear IH Hrun Hrest.
    destruct t as [set | i [v | e]];
      try (apply (turn_frame _ _ _ Ht); intros i' e' Heq; discriminate Heq).
    destruct (decide (suspended w !! i = Some AwaitMapping)) as [Htask | Hother].
    + simpl in Ht. rewrite Htask in Ht. simpl in Ht. injection Ht as <-.
      unfold tryLoadValue_settled, mbind, M_bind, lift.
      rewrite (Hcancel Htask). split; reflexivity.
    + apply (turn_frame _ _ _ Ht). intros i' e' [= <- <-]. exact Hother.
Qed.

(** The closures set the tracked state to nothing but ERROR: over any
    run it is what it was or the ERROR record, and a container without
    state tracking never gets one. *)
Lemma run_tracked_state (ts : list Turn) :
  forall w w', run stores ts w = Some w' ->
  loadState w' = loadState w
  \/ (is_Some (loadState w) /\ loadState w' = Some (getLoadState (tag ERROR))).
Proof.
  induction ts as [| t ts IH]; simpl; intros w w'.
  - intros [= <-]. by left.
  - destruct (turn stores t w) as [w1 |] eqn:Ht; simpl; [| discriminate].
    intros Hrun. pose proof (IH _ _ Hrun) as Hrest.
    assert (loadState w1 = loadState w
            \/ (is_Some (loadState w)
                /\ loadState w1 = Some (getLoadState (tag ERROR)))) as Hstep.
    { destruct t as [set | i o]; simpl in Ht.
      - injection Ht as <-. by left.
      - destruct (suspended w !! i) as [task |]; simpl in Ht; [| discriminate].
        injection Ht as <-. clear IH Hrun.
        destruct task, o as [v | e]; try (by left).
        unfold resume, tryLoadValue_settled, mbind, M_bind, lift.
        destruct (member e "name") as [name | e']; [| by left].
        destruct (strict_eq_str name "AbortError"); [by left |]. simpl.
        destruct (loadState w) as [st |]; [right | by left]. by split. }
    destruct Hrest as [-> | [Hsome ->]]; [exact Hstep |].
    right. split; [| reflexivity].
    destruct Hstep as [<- | [Hw _]]; assumption.
Qed.

End Runs.

(** * Further properties of the module *)

(** ** The flag records *)

(** X1: the flag record tells the state: a string has the flag record of
    a state tag only if it is that tag, so distinct tags have distinct
    records and no other string is taken for a state. *)
Theorem getLoadState_identifies_tag (s : string) (st : State) :
  getLoadState s = getLoadState (tag st) <-> s = tag st.
Proof.
  split; [| by intros ->].
  destruct (decide (s ∈ state_tags)) as [Hin | Hout].
  - apply elem_of_state_tags in Hin as [st' ->].
    destruct st, st'; intros H; first [reflexivity | discriminate H].
  - rewrite (getLoadState_other s Hout). destruct st; intros H; discriminate H.
Qed.

(** X2: on every string, [isPending] is the disjunction of [isLoading]
    and [isReloading], [isSettled] that of [isLoaded] and [isError], and
    pending, settled and writing exclude one another. *)
Theorem getLoadState_phases_exclusive (s : string) :
  isPending (getLoadState s) = isLoading (getLoadState s) || isReloading (getLoadState s)
  /\ isSettled (getLoadState s) = isLoaded (getLoadState s) || isError (getLoadState s)
  /\ isPending (getLoadState s) && isSettled (getLoadState s) = false
  /\ isWriting (getLoadState s) && isPending (getLoadState s) = false
  /\ isWriting (getLoadState s) && isSettled (getLoadState s) = false.
Proof.
  split; [reflexivity |]. split; [reflexivity |].
  destruct (decide (s ∈ state_tags)) as [Hin | Hout].
  - apply elem_of_state_tags in Hin as [st ->]. destruct st; repeat split.
  - rewrite (getLoadState_other s Hout). repeat split.
Qed.

(** ** [setState] *)

Lemma World_eta (w : World) :
  mkWorld (anyStoreCreated w) (errorLog w) (loadState w) (ready w) (calls w) (suspended w) = w.
Proof. by destruct w. Qed.

(** X3: [setState] writes only to a state store that exists: without
    one it changes nothing and creates none; with one, the store holds
    the record of the state set last, whatever was set before. *)
Theorem setState_last_wins (a b : State) (w : World) :
  (loadState w = None -> setState b w = (w, Normal tt))
  /\ (is_Some (loadState w) ->
      loadState (world_after (setState b w)) = Some (getLoadState (tag b)))
  /\ world_after (setState b (world_after (setState a w))) = world_after (setState b w).
Proof.
  split; [| split].
  - intros Hnone. unfold setState, write_loadState. rewrite Hnone. simpl.
    rewrite <- Hnone. by rewrite World_eta.
  - intros [r Hr]. unfold setState, write_loadState. simpl. by rewrite Hr.
  - unfold setState, write_loadState. simpl. by destruct (loadState w).
Qed.

Lemma setState_last_wins_witness :
  let w := mkWorld true [] (Some (getLoadState "LOADING")) false [] [] in
  setState ERROR initial_world = (initial_world, Normal tt)
  /\ loadState (world_after (setState ERROR w)) = Some (getLoadState "ERROR").
Proof.
  intros w.
  destruct (setState_last_wins LOADED ERROR initial_world) as (Hnone & _ & _).
  destruct (setState_last_wins LOADED ERROR w) as (_ & Hsome & _).
  split; [exact (Hnone eq_refl) | exact (Hsome (mk_is_Some _ _ eq_refl))].
Defined.

(** ** Construction *)

(** X4: constructing a container sets the creation flag in every case,
    and nothing of the result depends on the stores, the mapping function
    or the write function.  With [null] for the options the construction
    throws a [TypeError] after setting the flag and before touching the
    state or [ready]; with anything else it completes (with [undefined]),
    clears [ready], and creates the state store, at LOADING, exactly when
    the option [trackState] is truthy. *)
Theorem asyncWritable_construction
    (stores f g stores' f' g' options : JsValue) (w : World) :
  anyStoreCreated (world_after (asyncWritable stores f g options w)) = true
  /\ asyncWritable stores f g options w = asyncWritable stores' f' g' options w
  /\ (options = JNull ->
      asyncWritable stores f g options w
      = (world_after (flagStoreCreated w),
         Throw (TypeError "Cannot read properties of null")))
  /\ (options <> JNull ->
      exists trackState,
        member (match options with JUndefined => JObject ∅ | _ => options end) "trackState"
        = Normal trackState
        /\ asyncWritable stores f g options w
           = (mkWorld true (errorLog w)
                (if truthy trackState then Some (getLoadState "LOADING") else None)
                false (calls w) (suspended w),
              Normal JUndefined)).
Proof.
  split; [by destruct options |]. split; [reflexivity |]. split.
  - intros ->. reflexivity.
  - intros Hnull. destruct options; try congruence; eexists; split; reflexivity.
Qed.

Lemma asyncWritable_construction_witness :
  asyncWritable JNull JNull JNull JNull initial_world
  = (mkWorld true [] None false [] [], Throw (TypeError "Cannot read properties of null"))
  /\ exists trackState,
       member (JObject (<["trackState" := JNum 1]> ∅)) "trackState" = Normal trackState
       /\ asyncWritable JNull JNull JNull (JObject (<["trackState" := JNum 1]> ∅)) initial_world
          = (mkWorld true [] (if truthy trackState then Some (getLoadState "LOADING") else None)
               false [] [], Normal JUndefined).
Proof.
  destruct (asyncWritable_construction JNull JNull JNull JNull JNull JNull JNull initial_world)
    as (_ & _ & Hnull & _).
  destruct (asyncWritable_construction JNull JNull JNull JNull JNull JNull
              (JObject (<["trackState" := JNum 1]> ∅)) initial_world)
    as (_ & _ & _ & Hobject).
  split; [exact (Hnull eq_refl) |].
  apply Hobject. discriminate.
Defined.

(** ** Load failures *)

Lemma tryLoadValue_failure_reported_witness :
  let w := mkWorld true [] (Some (getLoadState "LOADING")) true [Mapping JNull] [] in
  tryLoadValue_settled (Rejected (Error "boom")) w
  = (mkWorld true [Error "boom"] (Some (getLoadState "ERROR")) true [Mapping JNull] [],
     Throw (Error "boom"))
  /\ tryLoadValue_settled (Rejected (JStr "oops")) w
     = (mkWorld true [JStr "oops"] (Some (getLoadState "ERROR")) true [Mapping JNull] [],
        Throw (JStr "oops")).
Proof.
  intros w. split.
  - exact (tryLoadValue_failure_reported (Error "boom") (JStr "Error") w eq_refl eq_refl).
  - exact (tryLoadValue_failure_reported (JStr "oops") JUndefined w eq_refl eq_refl).
Defined.

Lemma run_cancellations_silent_witness :
  let w := mkWorld true [] (Some (getLoadState "LOADING")) false [] [] in
  let ts := [FirstSubscription JUndefined; Settle 0 (Fulfilled (JNum 7));
             Settle 1 (Rejected (AbortError "aborted"))] in
  exists w', run empty_array ts w = Some w'
    /\ suspended w' = [AwaitLoadAll]
    /\ errorLog w' = [] /\ loadState w' = Some (getLoadState "LOADING").
Proof.
  intros w ts.
  exists (mkWorld true [] (Some (getLoadState "LOADING")) true
            [LoadAll empty_array; LoadAll JUndefined; Mapping (JNum 7)] [AwaitLoadAll]).
  assert (run empty_array ts w
          = Some (mkWorld true [] (Some (getLoadState "LOADING")) true
                    [LoadAll empty_array; LoadAll JUndefined; Mapping (JNum 7)]
                    [AwaitLoadAll])) as Hrun by reflexivity.
  assert (only_cancellations empty_array ts w) as Honly.
  { split; [exact I |]. split; [exact I |]. split; [| exact I]. intros _. reflexivity. }
  destruct (run_cancellations_silent empty_array ts w _ Hrun Honly) as [Hlog Hstate].
  split; [exact Hrun |]. split; [reflexivity |]. split; [exact Hlog | exact Hstate].
Defined.

(** ** Invariants of the event loop *)

Lemma rejections_cons (t : Turn) (ts : list Turn) :
  rejections (t :: ts) = rejections [t] ++ rejections ts.
Proof. destruct t as [set | i [v | e]]; reflexivity. Qed.

Section Invariants.
Variable stores : JsValue.

(** What one turn does to the logging hook and the tracked state: nothing,
    or one reportable rejection reason is logged and the state store, if
    any, goes to ERROR. *)
Lemma turn_report (t : Turn) (w w1 : World) :
  turn stores t w = Some w1 ->
  (errorLog w1 = errorLog w /\ loadState w1 = loadState w)
  \/ (exists i e, t = Settle i (Rejected e) /\ reportable e
        /\ errorLog w1 = errorLog w ++ [e]
        /\ loadState w1 = (fun _ => getLoadState (tag ERROR)) <$> loadState w).
Proof.
  destruct t as [set | i o]; simpl.
  - intros [= <-]. by left.
  - destruct (suspended w !! i) as [task |]; simpl; [| discriminate].
    intros [= <-]. destruct task, o as [v | e]; try (by left).
    unfold resume, tryLoadValue_settled, mbind, M_bind, lift.
    destruct (member e "name") as [name | e'] eqn:Hmember; [| by left].
    destruct (strict_eq_str name "AbortError") eqn:Hname; [by left |].
    right. exists i, e. repeat split. by exists name.
Qed.

(** X7: over any run the record of the logging hook is only extended,
    and what is added are rejection reasons that the run delivered, in
    the order of delivery, each with a readable [name] other than
    ['AbortError']: a cancellation is never logged. *)
Theorem run_log_extends (ts : list Turn) :
  forall w w', run stores ts w = Some w' ->
  exists added,
    errorLog w' = errorLog w ++ added
    /\ Forall reportable added
    /\ added `sublist_of` rejections ts.
Proof.
  induction ts as [| t ts IH]; intros w w'.
  - intros [= <-]. exists []. by rewrite app_nil_r.
  - cbn [run]. destruct (turn stores t w) as [w1 |] eqn:Ht; [| discriminate].
    cbn [mbind option_bind]. intros Hrun. destruct (IH _ _ Hrun) as (added & Hlog & Hall & Hsub).
    rewrite rejections_cons.
    destruct (turn_report t w w1 Ht) as [[Hsame _] | (i & e & -> & He & Hone & _)].
    + exists added. rewrite Hlog, Hsame. repeat split; [assumption |].
      by apply sublist_inserts_l.
    + exists (e :: added). rewrite Hlog, Hone, <- app_assoc. repeat split.
      * by constructor.
      * simpl. by apply sublist_skip.
Qed.

(** X8: over any run, either the logging hook was not invoked and the
    tracked state is what it was, or the hook was invoked and the state
    store, if there is one, holds ERROR.  So the tracked state changes
    only to ERROR, only together with a logged failure, and once at ERROR
    it stays there. *)
Theorem run_error_state (ts : list Turn) :
  forall w w', run stores ts w = Some w' ->
  (errorLog w' = errorLog w /\ loadState w' = loadState w)
  \/ (length (errorLog w) < length (errorLog w')
      /\ loadState w' = (fun _ => getLoadState (tag ERROR)) <$> loadState w).
Proof.
  induction ts as [| t ts IH]; simpl; intros w w'.
  - intros [= <-]. by left.
  - destruct (turn stores t w) as [w1 |] eqn:Ht; simpl; [| discriminate].
    intros Hrun.
    destruct (IH _ _ Hrun) as [[Hlog Hstate] | [Hlog Hstate]];
      destruct (turn_report t w w1 Ht) as [[Hlog1 Hstate1] | (i & e & _ & _ & Hlog1 & Hstate1)];
      rewrite ?Hlog, Hstate, Hstate1.
    + left. by rewrite Hlog1.
    + right. rewrite Hlog1, length_app. simpl. split; [lia | reflexivity].
    + right. rewrite <- Hlog1. by split.
    + right. rewrite Hlog1, length_app in Hlog. simpl in Hlog.
      split; [lia | by destruct (loadState w)].
Qed.

(** What one turn does to [ready] and to the calls of the mapping
    function: [ready] is never cleared, it is set only in a turn that
    also calls the mapping function, and no call is forgotten. *)
Lemma turn_ready (t : Turn) (w w1 : World) :
  turn stores t w = Some w1 ->
  (ready w = true -> ready w1 = true)
  /\ (ready w1 = true ->
      ready w = true \/ length (mapping_calls w1) = S (length (mapping_calls w)))
  /\ length (mapping_calls w) <= length (mapping_calls w1).
Proof.
  destruct t as [set | i o]; cbn [turn].
  - intros Heq.
    assert (w1 = world_after (onFirstSubscribtion stores set w)) as -> by congruence.
    destruct (onFirstSubscribtion_calls stores set w) as (_ & Hm & Hr).
    rewrite Hm, Hr. auto.
  - destruct (suspended w !! i) as [task |]; cbn [mbind option_bind]; [| discriminate].
    intros Heq.
    assert (w1 = world_after (resume task o (unpark i w))) as -> by congruence.
    clear Heq. rewrite <- (mapping_calls_unpark i w).
    change (ready w) with (ready (unpark i w)). generalize (unpark i w) as u. intros u.
    destruct task; cbn [resume].
    + destruct o as [values | e]; [| auto].
      destruct (onFirstSubscribtion_inner_fulfilled values u) as [Hr Hm].
      rewrite Hr, Hm, length_app. simpl.
      split; [auto | split; [intros _; right; lia | lia]].
    + destruct o; simpl; auto.
    + destruct (tryLoadValue_settled_frame o u) as (Hc & _ & Hr).
      unfold mapping_calls. rewrite Hc, Hr. auto.
Qed.

(** X9: over any run [ready], once set, stays set; and it gets set only
    in a run that also calls the mapping function. *)
Theorem run_ready (ts : list Turn) :
  forall w w', run stores ts w = Some w' ->
  (ready w = true -> ready w' = true)
  /\ (ready w' = true ->
      ready w = true \/ length (mapping_calls w) < length (mapping_calls w'))
  /\ length (mapping_calls w) <= length (mapping_calls w').
Proof.
  induction ts as [| t ts IH]; simpl; intros w w'.
  - intros [= <-]. auto.
  - destruct (turn stores t w) as [w1 |] eqn:Ht; simpl; [| discriminate].
    intros Hrun. destruct (IH _ _ Hrun) as (Hkeep & Hset & Hmono).
    destruct (turn_ready t w w1 Ht) as (Hkeep1 & Hset1 & Hmono1).
    repeat split; [auto | | lia].
    intros Hr. destruct (Hset Hr) as [Hr1 | Hlt]; [| right; lia].
    destruct (Hset1 Hr1) as [Hr0 | Heq]; [by left | right; lia].
Qed.

(** X10: the dependency loader is called exactly twice per call of the
    notifier, first with the container's stores and then without an
    argument, and by nothing else in a run. *)
Theorem run_loadAll_calls (ts : list Turn) :
  forall w w', run stores ts w = Some w' ->
  loadAll_calls w'
  = loadAll_calls w ++ mjoin (replicate (notifier_calls ts) [stores; JUndefined]).
Proof.
  induction ts as [| t ts IH]; intros w w'.
  - intros [= <-]. simpl. by rewrite app_nil_r.
  - cbn [run]. destruct (turn stores t w) as [w1 |] eqn:Ht; [| discriminate].
    cbn [mbind option_bind]. intros Hrun. rewrite (IH _ _ Hrun). clear IH Hrun.
    destruct t as [set | i o]; cbn [turn notifier_calls] in *.
    + assert (w1 = world_after (onFirstSubscribtion stores set w)) as -> by congruence.
      destruct (onFirstSubscribtion_calls stores set w) as (Hl & _).
      rewrite Hl. simpl. by rewrite <- app_assoc.
    + destruct (suspended w !! i) as [task |]; cbn [mbind option_bind] in Ht;
        [| discriminate].
      assert (w1 = world_after (resume task o (unpark i w))) as -> by congruence.
      f_equal. change (loadAll_calls w) with (loadAll_calls (unpark i w)).
      generalize (unpark i w) as u. intros u.
      destruct task, o as [v | e]; try reflexivity.
      * unfold loadAll_calls. simpl. rewrite omap_app. simpl. by rewrite app_nil_r.
      * destruct (tryLoadValue_settled_frame (Rejected e) u) as (Hc & _).
        unfold loadAll_calls. cbn [resume]. by rewrite Hc.
Qed.

End Invariants.

(** The example run. *)
Lemma failing_run : run empty_array failing_turns tracking_world = Some failed_world.
Proof. reflexivity. Qed.

Lemma run_log_extends_witness :
  run empty_array failing_turns tracking_world = Some failed_world
  /\ exists added,
       errorLog failed_world = errorLog tracking_world ++ added
       /\ Forall reportable added
       /\ added `sublist_of` rejections failing_turns.
Proof.
  split; [exact failing_run |].
  exact (run_log_extends empty_array failing_turns tracking_world failed_world failing_run).
Defined.

Lemma run_error_state_witness :
  run empty_array failing_turns tracking_world = Some failed_world
  /\ length (errorLog tracking_world) < length (errorLog failed_world)
  /\ loadState failed_world = Some (getLoadState "ERROR").
Proof.
  split; [exact failing_run |].
  destruct (run_error_state empty_array failing_turns tracking_world failed_world failing_run)
    as [[Hlog _] | Herror]; [discriminate Hlog | exact Herror].
Defined.

Lemma run_ready_witness :
  run empty_array failing_turns tracking_world = Some failed_world
  /\ ready tracking_world = false /\ ready failed_world = true
  /\ length (mapping_calls tracking_world) < length (mapping_calls failed_world).
Proof.
  split; [exact failing_run |]. split; [reflexivity |]. split; [reflexivity |].
  destruct (run_ready empty_array failing_turns tracking_world failed_world failing_run)
    as (_ & Hset & _).
  destruct (Hset eq_refl) as [Hready | Hcalls]; [discriminate Hready | exact Hcalls].
Defined.

Lemma run_loadAll_calls_witness :
  run empty_array failing_turns tracking_world = Some failed_world
  /\ loadAll_calls failed_world = [empty_array; JUndefined].
Proof.
  split; [exact failing_run |].
  exact (run_loadAll_calls empty_array failing_turns tracking_world failed_world failing_run).
Defined.

(** ** The record of [asyncDerived], member by member *)

Lemma lookup_spread_if (key k : string) (v : JsValue) (m : gmap string JsValue) :
  spread_if k v m !! key
  = if decide (key = k) then (if truthy v then Some v else m !! key) else m !! key.
Proof.
  unfold spread_if. destruct (decide (key = k)) as [-> | Hne]; destruct (truthy v);
    first [reflexivity | by rewrite lookup_insert_eq | by rewrite lookup_insert_ne].
Qed.

(** The record that [asyncDerived] assembles, from the members read. *)
Lemma asyncDerived_capabilities_readable (r : JsValue) :
  r <> JUndefined -> r <> JNull ->
  exists get : string -> JsValue,
    (forall key, member r key = Normal (get key))
    /\ asyncDerived_capabilities r
       = Normal (JObject
           (spread_if "reset" (get "reset")
             (spread_if "state" (get "state")
               (spread_if "reload" (get "reload")
                 (<["load" := get "load"]> (<["subscribe" := get "subscribe"]>
                   (<["store" := get "store"]> ∅))))))).
Proof.
  intros Hu Hn.
  assert (exists get : string -> JsValue,
            (forall key, member r key = Normal (get key))) as [get Hget].
  { destruct r; try congruence; eexists (fun key => _); intros key; simpl; reflexivity. }
  exists get. split; [exact Hget |].
  unfold asyncDerived_capabilities, mbind, Completion_bind. rewrite !Hget. reflexivity.
Qed.

(** X11: the assembly of the record fails exactly when the underlying
    construction returned [undefined] or [null], and then with a
    [TypeError]; on every other value it returns an object. *)
Theorem asyncDerived_capabilities_fails_on_nullish (r : JsValue) :
  ((r = JUndefined \/ r = JNull)
   <-> exists message, asyncDerived_capabilities r = Throw (TypeError message))
  /\ ((r <> JUndefined /\ r <> JNull)
      <-> exists record, asyncDerived_capabilities r = Normal (JObject record)).
Proof.
  assert (r = JUndefined \/ r = JNull \/ (r <> JUndefined /\ r <> JNull))
    as [-> | [-> | [Hu Hn]]]
    by (destruct r; auto; right; right; split; discriminate).
  { split; split.
    - intros _. by eexists.
    - by left.
    - by intros [[] _].
    - intros [record H]. discriminate H. }
  { split; split.
    - intros _. by eexists.
    - by right.
    - by intros [_ []].
    - intros [record H]. discriminate H. }
  destruct (asyncDerived_capabilities_readable r Hu Hn) as (get & _ & Hrun).
  rewrite Hrun. split; split.
  - by intros [? | ?].
  - intros [message H]. discriminate H.
  - intros _. by eexists.
  - by intros _.
Qed.

(** X12: every member of the record that [asyncDerived] returns is the
    member of the same name of what the underlying construction returned,
    unchanged, and is one of [store], [subscribe], [load], [reload],
    [state] and [reset]. *)
Theorem asyncDerived_capabilities_members (r record : JsValue) (key : string) :
  asyncDerived_capabilities r = Normal record ->
  has_key record key ->
  member record key = member r key
  /\ key ∈ ["store"; "subscribe"; "load"; "reload"; "state"; "reset"].
Proof.
  intros Hrun Hkey.
  assert (r <> JUndefined) as Hu by (intros ->; discriminate Hrun).
  assert (r <> JNull) as Hn by (intros ->; discriminate Hrun).
  destruct (asyncDerived_capabilities_readable r Hu Hn) as (get & Hget & Hrun').
  rewrite Hrun' in Hrun. injection Hrun as <-.
  rewrite Hget. simpl in *. revert Hkey.
  rewrite !lookup_spread_if, !elem_of_cons.
  destruct (decide (key = "reset")) as [-> | ?].
  { destruct (truthy (get "reset")); [auto 10 | by intros [? [=]]]. }
  destruct (decide (key = "state")) as [-> | ?].
  { destruct (truthy (get "state")); [auto 10 | by intros [? [=]]]. }
  destruct (decide (key = "reload")) as [-> | ?].
  { destruct (truthy (get "reload")); [auto 10 | by intros [? [=]]]. }
  destruct (decide (key = "load")) as [-> | ?]; [auto 10 |].
  destruct (decide (key = "subscribe")) as [-> | ?]; [auto 10 |].
  destruct (decide (key = "store")) as [-> | ?]; [auto 10 |].
  rewrite !lookup_insert_ne by done. rewrite lookup_empty. by intros [? [=]].
Qed.

Lemma asyncDerived_capabilities_members_witness :
  let load := JObject (<["name" := JStr "load"]> ∅) in
  let r := JObject (<["store" := JObject ∅]> (<["subscribe" := JObject ∅]>
                   (<["load" := load]> (<["set" := load]> ∅)))) in
  let record := JObject (<["store" := JObject ∅]> (<["subscribe" := JObject ∅]>
                        (<["load" := load]> ∅))) in
  asyncDerived_capabilities r = Normal record
  /\ has_key record "load"
  /\ member record "load" = Normal load.
Proof.
  intros load r record.
  assert (asyncDerived_capabilities r = Normal record) as Hrun by reflexivity.
  assert (has_key record "load") as Hkey by (by exists load).
  split; [exact Hrun |]. split; [exact Hkey |].
  exact (proj1 (asyncDerived_capabilities_members r record "load" Hrun Hkey)).
Defined.

(** X13: [asyncDerived]'s assembly is idempotent: applied to a record it
    returned, it returns that record again. *)
Theorem asyncDerived_capabilities_idempotent (r record : JsValue) :
  asyncDerived_capabilities r = Normal record ->
  asyncDerived_capabilities record = Normal record.
Proof.
  intros Hrun.
  assert (r <> JUndefined) as Hu by (intros ->; discriminate Hrun).
  assert (r <> JNull) as Hn by (intros ->; discriminate Hrun).
  destruct (asyncDerived_capabilities_readable r Hu Hn) as (get & _ & Hrun').
  rewrite Hrun' in Hrun. injection Hrun as <-.
  unfold asyncDerived_capabilities, mbind, Completion_bind, mret, Completion_ret, member.
  rewrite !lookup_spread_if. simpl.
  unfold spread_if.
  destruct (truthy (get "reset")) eqn:Hreset, (truthy (get "state")) eqn:Hstate,
    (truthy (get "reload")) eqn:Hreload; simpl;
    rewrite ?Hreset, ?Hstate, ?Hreload; reflexivity.
Qed.

Lemma asyncDerived_capabilities_idempotent_witness :
  let r := JObject (<["store" := JObject ∅]> (<["state" := JObject ∅]>
                   (<["reload" := JBool false]> (<["update" := JObject ∅]> ∅)))) in
  let record := JObject (<["store" := JObject ∅]> (<["subscribe" := JUndefined]>
                        (<["load" := JUndefined]> (<["state" := JObject ∅]> ∅)))) in
  asyncDerived_capabilities r = Normal record
  /\ asyncDerived_capabilities record = Normal record.
Proof.
  intros r record.
  assert (asyncDerived_capabilities r = Normal record) as Hrun by reflexivity.
  split; [exact Hrun | exact (asyncDerived_capabilities_idempotent r record Hrun)].
Defined.

(** ** [asyncDerived] and [asyncReadable] on [asyncWritable] as written *)

Example spread_string :
  spread (JStr "ab") = <["0" := JStr "a"]> (<["1" := JStr "b"]> ∅).
Proof. reflexivity. Qed.

Example spread_null : spread JNull = ∅.
Proof. reflexivity. Qed.

(** X14: [asyncDerived] never returns a container: whatever the stores,
    the mapping function and the options, the call throws a [TypeError];
    by then the creation flag is set, and neither the dependency loader
    nor the mapping function has been called. *)
Theorem asyncDerived_never_returns (stores f options : JsValue) (w : World) :
  (exists message,
     completion (asyncDerived stores f options w) = Throw (TypeError message))
  /\ anyStoreCreated (world_after (asyncDerived stores f options w)) = true
  /\ calls (world_after (asyncDerived stores f options w)) = calls w
  /\ suspended (world_after (asyncDerived stores f options w)) = suspended w.
Proof.
  destruct options; (split; [eexists; reflexivity | repeat split]).
Qed.

(** X15: [asyncReadable] never returns a container either: for every
    initial value, load function and options (also [null], or none) the
    call throws the [TypeError] of reading a member of [undefined]; the
    load function is not called. *)
Theorem asyncReadable_never_returns (initial loadFunction options : JsValue) (w : World) :
  completion (asyncReadable initial loadFunction options w)
  = Throw (TypeError "Cannot read properties of undefined")
  /\ anyStoreCreated (world_after (asyncReadable initial loadFunction options w)) = true
  /\ ready (world_after (asyncReadable initial loadFunction options w)) = false
  /\ calls (world_after (asyncReadable initial loadFunction options w)) = calls w
  /\ suspended (world_after (asyncReadable initial loadFunction options w)) = suspended w.
Proof. repeat split. Qed.

(** X16: of what [asyncReadable] is given, only the option [trackState]
    has an effect: the state store is created, at LOADING, exactly when
    the spread options hold a truthy [trackState]; the initial value, an
    [initial] among the options and the load function change nothing. *)
Theorem asyncReadable_uses_trackState_only
    (initial loadFunction initial' loadFunction' options : JsValue) (w : World) :
  loadState (world_after (asyncReadable initial loadFunction options w))
  = (if truthy (default JUndefined (spread options !! "trackState"))
     then Some (getLoadState "LOADING") else None)
  /\ asyncReadable initial loadFunction options w
     = asyncReadable initial' loadFunction' options w.
Proof.
  assert (forall i : JsValue,
            default JUndefined ((<["initial" := i]> (spread options)) !! "trackState")
            = default JUndefined (spread options !! "trackState")) as Hlookup
    by (intros i; by rewrite lookup_insert_ne).
  unfold asyncReadable, asyncDerived, asyncWritable, mbind, M_bind, lift, member.
  simpl. rewrite !Hlookup. split; reflexivity.
Qed.

(** ** The arguments of the mapping function *)

Lemma fulfilments_cons (t : Turn) (ts : list Turn) :
  fulfilments (t :: ts) = fulfilments [t] ++ fulfilments ts.
Proof. destruct t as [set | i [v | e]]; reflexivity. Qed.

Lemma turn_mapping_arguments (stores : JsValue) (t : Turn) (w w1 : World) :
  turn stores t w = Some w1 ->
  exists added,
    mapping_calls w1 = mapping_calls w ++ added /\ added `sublist_of` fulfilments [t].
Proof.
  destruct t as [set | i o]; cbn [turn].
  - intros Heq.
    assert (w1 = world_after (onFirstSubscribtion stores set w)) as -> by congruence.
    destruct (onFirstSubscribtion_calls stores set w) as (_ & Hm & _).
    exists []. by rewrite Hm, app_nil_r.
  - destruct (suspended w !! i) as [task |]; cbn [mbind option_bind]; [| discriminate].
    intros Heq.
    assert (w1 = world_after (resume task o (unpark i w))) as -> by congruence.
    clear Heq. rewrite <- (mapping_calls_unpark i w). generalize (unpark i w) as u. intros u.
    destruct task; cbn [resume].
    + destruct o as [values | e].
      * destruct (onFirstSubscribtion_inner_fulfilled values u) as [_ Hm].
        exists [values]. by rewrite Hm.
      * exists []. by rewrite app_nil_r.
    + exists []. rewrite app_nil_r. split; [by destruct o | apply sublist_nil_l].
    + destruct (tryLoadValue_settled_frame o u) as (Hc & _).
      exists []. rewrite app_nil_r. split; [| apply sublist_nil_l].
      unfold mapping_calls. by rewrite Hc.
Qed.

(** X17: over any run the calls of the mapping function are only added
    to, and each added call passes a value with which the run fulfilled
    an awaited load, in the order of fulfilment: the mapping function is
    never called with anything else, and never after a rejection alone. *)
Theorem run_mapping_arguments (stores : JsValue) (ts : list Turn) :
  forall w w', run stores ts w = Some w' ->
  exists added,
    mapping_calls w' = mapping_calls w ++ added /\ added `sublist_of` fulfilments ts.
Proof.
  induction ts as [| t ts IH]; intros w w'.
  - intros [= <-]. exists []. by rewrite app_nil_r.
  - cbn [run]. destruct (turn stores t w) as [w1 |] eqn:Ht; [| discriminate].
    cbn [mbind option_bind]. intros Hrun.
    destruct (IH _ _ Hrun) as (rest & Hrest & Hsub).
    destruct (turn_mapping_arguments stores t w w1 Ht) as (first & Hfirst & Hsub1).
    exists (first ++ rest). rewrite Hrest, Hfirst, <- app_assoc, fulfilments_cons.
    split; [reflexivity | by apply sublist_app].
Qed.

Lemma run_mapping_arguments_witness :
  run empty_array failing_turns tracking_world = Some failed_world
  /\ exists added,
       mapping_calls failed_world = mapping_calls tracking_world ++ added
       /\ added `sublist_of` fulfilments failing_turns.
Proof.
  split; [exact failing_run |].
  exact (run_mapping_arguments empty_array failing_turns tracking_world failed_world
           failing_run).
Defined.

(** ** The first subscriber *)

(** C6 on the code: [asyncWritable] returns [undefined], so there is no
    [subscribe] to attach a subscriber with: reading it throws.  The
    construction calls nothing and leaves nothing suspended, and the
    function [onFirstSubscribtion] is handed to no store, so nothing ever
    calls it: no initial load is triggered.  Were it called, one call
    would load the dependencies and then call the mapping function
    once. *)
Theorem asyncWritable_attaches_no_subscriber
    (stores f g set values : JsValue) (props : gmap string JsValue) (w : World) :
  completion (asyncWritable stores f g (JObject props) w) = Normal JUndefined
  /\ member JUndefined "subscribe" = Throw (TypeError "Cannot read properties of undefined")
  /\ calls (world_after (asyncWritable stores f g (JObject props) w)) = calls w
  /\ suspended (world_after (asyncWritable stores f g (JObject props) w)) = suspended w
  /\ mapping_calls
       (world_after (onFirstSubscribtion_inner_settled (Fulfilled values)
          (world_after (onFirstSubscribtion stores set w))))
     = mapping_calls w ++ [values].
Proof.
  repeat split.
  destruct (onFirstSubscribtion_inner_fulfilled values
              (world_after (onFirstSubscribtion stores set w))) as [_ Hm].
  destruct (onFirstSubscribtion_calls stores set w) as (_ & Hm' & _).
  by rewrite Hm, Hm'.
Qed.
